(** * tastypie.api: the [Api] resource registry

  A shallow embedding of [src/tastypie/api.py].  The class keeps two
  dictionaries ([_registry] and [_canonicals]) from resource names to
  resource objects, builds the URLconf of the API from them and serves a
  discovery view.  Dictionaries are [gmap]s, resource objects live in a
  store indexed by object identity, and the methods are written in a
  small state-and-exception monad. *)

From Stdlib Require Import NArith Ascii String.
From stdpp Require Import gmap strings list fin_maps sorting.

Local Open Scope string_scope.
Local Open Scope list_scope.

(** ** Ordering of [str] keys, as used by [sorted] *)

Module PyStr.

(** [s1 <= s2] on Python 2 [str]: byte-wise lexicographic comparison, a
    proper prefix being smaller. *)
Fixpoint leb (s1 s2 : string) : bool :=
  match s1, s2 with
  | EmptyString, _ => true
  | String _ _, EmptyString => false
  | String a s1', String b s2' =>
      if (N_of_ascii a <? N_of_ascii b)%N then true
      else if (N_of_ascii a =? N_of_ascii b)%N then leb s1' s2'
      else false
  end.

Definition le (s1 s2 : string) : Prop := leb s1 s2 = true.
Definition lt (s1 s2 : string) : Prop := le s1 s2 ∧ s1 ≠ s2.

#[global] Instance le_dec : RelDecision le.
Proof. intros s1 s2. unfold le. apply _. Defined.

(** The builtin [sorted], on a list of [str]. *)
Definition sorted (l : list string) : list string := merge_sort le l.

End PyStr.

(** ** Data model *)

(** The values a [resource_name] attribute is observed with. *)
Inductive pyval := PyNone | PyString (s : string).

(** Python objects are handled by reference: [ref] is object identity. *)
Abbreviation ref := positive.

(** What the class imports and does not define: types of the web framework
  and of the rest of the package. *)
Class HostTypes := {
Request : Type;        (* django.http.HttpRequest *)
Serializer : Type;     (* tastypie.serializers.Serializer *)
World : Type;          (* module-level state behind _add_resource *)
ResourceBody : Type;   (* the part of a resource object this file never touches *)
UrlConf : Type;        (* value of a resource's [urls] property *)
UrlPatterns : Type     (* value of django's [patterns(...)] *)
}.

Inductive exn :=
| ImproperlyConfigured (resource : ref)
| NotRegistered (resource_name : string)
| KeyError (key : string)
| AttributeError (name : string).

Inductive result (A : Type) :=
| Return (a : A)
| Raise (e : exn).
Arguments Return {A} a.
Arguments Raise {A} e.

(** The closure built by [wrap_view]: it remembers the method name and looks
  it up on the [Api] when it is called. *)
Inductive View := wrapper (view : string).

Record HttpResponse := {
content : string;
content_type : string
}.

Section Model.
Context {T : HostTypes}.

(** A resource object: [resource_name] is [None] when the object has no
    such attribute; [r_api_name] is the [api_name] attribute that [urls]
    assigns. *)
Record Resource := {
  resource_name : option pyval;
  r_api_name : option string;
  r_body : ResourceBody
}.

Record Api := {
  api_name : string;
  _registry : gmap string ref;
  _canonicals : gmap string ref
}.

(** [include(urlconf)] *)
Inductive Included := include (urlconf : UrlConf).

(** The two kinds of entry [urls] puts in [pattern_list]. *)
Inductive PatternEntry :=
| url (regex : string) (view : View) (name : string)
| pair (regex : string) (included : Included).

(** Functions the class calls and does not define. *)
Class Host := {
  _add_resource : Api → ref → Resource → bool → World → World;
  _remove_resource : Api → ref → Resource → World → World;
  resource_urls : Resource → UrlConf;
  patterns : string → list PatternEntry → UrlPatterns;
  reverse : string → gmap string string → string;
  new_Serializer : Serializer;
  determine_format : Request → Serializer → string;
  serialize : Serializer → gmap string string → string → string;
  build_content_type : string → string
}.

(** [dict.keys()] lists the keys in an order the language leaves open. *)
Class DictOrder := {
  keys : gmap string ref → list string;
  keys_Permutation : ∀ d, keys d ≡ₚ elements (dom d)
}.

(** The program state one [Api] object lives in. *)
Record State := {
  self : Api;
  objects : ref → Resource;
  world : World;
  warnings : list (ref * string)
}.

(** *** State and exception monad *)

Definition M (A : Type) : Type := State → result A * State.

Definition ret {A} (a : A) : M A := λ st, (Return a, st).
Definition raise {A} (e : exn) : M A := λ st, (Raise e, st).
Definition bind {A B} (m : M A) (k : A → M B) : M B :=
  λ st, match m st with
        | (Return a, st') => k a st'
        | (Raise e, st') => (Raise e, st')
        end.
Definition get : M State := λ st, (Return st, st).
Definition put (st : State) : M unit := λ _, (Return tt, st).

End Model.

Declare Scope py_scope.
Delimit Scope py_scope with py.
Notation "x <- m ;; k" := (bind m (λ x, k))
(at level 100, m at level 99, k at level 200, right associativity) : py_scope.
Notation "m ;; k" := (bind m (λ _, k))
(at level 100, k at level 200, right associativity) : py_scope.

Section Methods.
Context {T : HostTypes} {F : Host} {O : DictOrder}.
Local Open Scope py_scope.

Definition set_self (a : Api) : M unit :=
  st <- get ;;
  put {| self := a; objects := objects st; world := world st;
         warnings := warnings st |}.

Definition set_world (w : World) : M unit :=
  st <- get ;;
  put {| self := self st; objects := objects st; world := w;
         warnings := warnings st |}.

(** [self._registry[k] = v] *)
Definition registry_setitem (k : string) (v : ref) : M unit :=
  st <- get ;;
  set_self {| api_name := api_name (self st);
              _registry := <[k := v]> (_registry (self st));
              _canonicals := _canonicals (self st) |}.

(** [self._canonicals[k] = v] *)
Definition canonicals_setitem (k : string) (v : ref) : M unit :=
  st <- get ;;
  set_self {| api_name := api_name (self st);
              _registry := _registry (self st);
              _canonicals := <[k := v]> (_canonicals (self st)) |}.

(** [del(self._registry[k])] *)
Definition registry_delitem (k : string) : M unit :=
  st <- get ;;
  match _registry (self st) !! k with
  | None => raise (KeyError k)
  | Some _ =>
      set_self {| api_name := api_name (self st);
                  _registry := delete k (_registry (self st));
                  _canonicals := _canonicals (self st) |}
  end.

(** [del(self._canonicals[k])] *)
Definition canonicals_delitem (k : string) : M unit :=
  st <- get ;;
  match _canonicals (self st) !! k with
  | None => raise (KeyError k)
  | Some _ =>
      set_self {| api_name := api_name (self st);
                  _registry := _registry (self st);
                  _canonicals := delete k (_canonicals (self st)) |}
  end.

(** [self._registry[k]] *)
Definition registry_getitem (k : string) : M ref :=
  st <- get ;;
  match _registry (self st) !! k with
  | None => raise (KeyError k)
  | Some r => ret r
  end.

(** [self._canonicals[k]] *)
Definition canonicals_getitem (k : string) : M ref :=
  st <- get ;;
  match _canonicals (self st) !! k with
  | None => raise (KeyError k)
  | Some r => ret r
  end.

(** [getattr(resource, 'resource_name', None)] *)
Definition getattr_resource_name (resource : ref) : M pyval :=
  st <- get ;;
  ret (default PyNone (resource_name (objects st resource))).

(** [resource.api_name = v] *)
Definition with_api_name (v : string) (o : Resource) : Resource :=
  {| resource_name := resource_name o; r_api_name := Some v;
     r_body := r_body o |}.

Definition setattr_api_name (resource : ref) (v : string) : M unit :=
  st <- get ;;
  put {| self := self st;
         objects := λ r, if decide (r = resource)
                         then with_api_name v (objects st resource)
                         else objects st r;
         world := world st; warnings := warnings st |}.

(** [warnings.warn(...)]: the message is kept by its two arguments. *)
Definition warn (resource : ref) (resource_name : string) : M unit :=
  st <- get ;;
  put {| self := self st; objects := objects st; world := world st;
         warnings := (warnings st ++ [(resource, resource_name)])%list |}.

Definition register (resource : ref) (canonical : bool) : M unit :=
  resource_name <- getattr_resource_name resource ;;
  match resource_name with
  | PyNone => raise (ImproperlyConfigured resource)
  | PyString resource_name =>
      registry_setitem resource_name resource ;;
      (if canonical then
         st <- get ;;
         (if decide (resource_name ∈ dom (_canonicals (self st)))
          then warn resource resource_name else ret tt) ;;
         canonicals_setitem resource_name resource
       else ret tt) ;;
      (* Register it globally so we can build URIs. *)
      st <- get ;;
      set_world (_add_resource (self st) resource (objects st resource)
                   canonical (world st))
  end.

Definition unregister (resource_name : string) : M unit :=
  st <- get ;;
  (if decide (resource_name ∈ dom (_registry (self st))) then
     r <- registry_getitem resource_name ;;
     st <- get ;;
     set_world (_remove_resource (self st) r (objects st r) (world st)) ;;
     registry_delitem resource_name
   else ret tt) ;;
  st <- get ;;
  if decide (resource_name ∈ dom (_canonicals (self st))) then
    canonicals_delitem resource_name
  else ret tt.

Definition canonical_resource_for (resource_name : string) : M ref :=
  st <- get ;;
  if decide (resource_name ∈ dom (_canonicals (self st))) then
    canonicals_getitem resource_name
  else raise (NotRegistered resource_name).

Definition wrap_view (view : string) : View := wrapper view.

(** A [for] loop that carries one local variable. *)
Fixpoint for_in {A B} (l : list A) (acc : B) (body : B → A → M B) : M B :=
  match l with
  | [] => ret acc
  | x :: l' => acc' <- body acc x ;; for_in l' acc' body
  end.

(** ["^(?P<api_name>%s)/" % api_name] *)
Definition prefix_regex (api_name : string) : string :=
  "^(?P<api_name>" +:+ api_name +:+ ")/".

(** The body of the loop of [urls]. *)
Definition urls_body (pattern_list : list PatternEntry) (name : string)
  : M (list PatternEntry) :=
  r <- registry_getitem name ;;
  st <- get ;;
  setattr_api_name r (api_name (self st)) ;;
  st <- get ;;
  r <- registry_getitem name ;;
  st' <- get ;;
  ret (pattern_list ++
         [pair (prefix_regex (api_name (self st)))
               (include (resource_urls (objects st' r)))])%list.

Definition urls : M UrlPatterns :=
  st <- get ;;
  let pattern_list :=
    [ url ("^(?P<api_name>" +:+ api_name (self st) +:+ ")/$")
          (wrap_view "top_level")
          ("api_" +:+ api_name (self st) +:+ "_top_level") ] in
  pattern_list <-
    for_in (PyStr.sorted (keys (_registry (self st)))) pattern_list
           urls_body ;;
  ret (patterns "" pattern_list).

Definition top_level (request : Request) (api_name_arg : option string)
  : M HttpResponse :=
  let serializer := new_Serializer in
  st <- get ;;
  let api_name := default (api_name (self st)) api_name_arg in
  let available_resources :=
    foldl (λ (d : gmap string string) name,
             <[name := reverse "api_dispatch_list"
                         {[ "api_name" := api_name;
                            "resource_name" := name ]}]> d)
          ∅ (PyStr.sorted (keys (_registry (self st)))) in
  let desired_format := determine_format request serializer in
  let serialized := serialize serializer available_resources desired_format in
  ret {| content := serialized;
         content_type := build_content_type desired_format |}.

(** Calling the closure of [wrap_view]: [getattr(self, view)(request,
    **kwargs)], for the one view method the class has. *)
Definition call_view (v : View) (request : Request)
    (api_name_arg : option string) : M HttpResponse :=
  match v with
  | wrapper view =>
      if decide (view = "top_level") then top_level request api_name_arg
      else raise (AttributeError view)
  end.

End Methods.

(** ** Histories of calls on one [Api] object *)

Section Histories.
Context {T : HostTypes} {F : Host} {O : DictOrder}.
Local Open Scope py_scope.

(** [Api.__init__] *)
Definition Api_init (api_name : string) : Api :=
  {| api_name := api_name; _registry := ∅; _canonicals := ∅ |}.

Definition init (api_name : string) (objs : ref → Resource) (w : World)
  : State :=
  {| self := Api_init api_name; objects := objs; world := w; warnings := [] |}.

Inductive op :=
| Register (resource : ref) (canonical : bool)
| Unregister (resource_name : string)
| CanonicalResourceFor (resource_name : string)
| Urls
| TopLevel (request : Request) (api_name_arg : option string).

Definition call (o : op) : M unit :=
  match o with
  | Register resource canonical => register resource canonical
  | Unregister resource_name => unregister resource_name
  | CanonicalResourceFor resource_name =>
      canonical_resource_for resource_name ;; ret tt
  | Urls => urls ;; ret tt
  | TopLevel request api_name_arg => top_level request api_name_arg ;; ret tt
  end.

(** The state a call leaves behind, whether it returned or raised. *)
Definition step (st : State) (o : op) : State := (call o st).2.

Definition run_ops (l : list op) (st : State) : State := foldl step st l.

(** The invariant tying the two dictionaries. *)
Definition canonicals_registered (a : Api) : Prop :=
  dom (_canonicals a) ⊆ dom (_registry a).

End Histories.

(** ** A small host to run the model on *)

Module Demo.

#[global] Instance types : HostTypes := {|
  Request := string;
  Serializer := unit;
  World := list string;
  ResourceBody := unit;
  UrlConf := string;
  UrlPatterns := list string
|}.

Definition kwarg (kwargs : gmap string string) (k : string) : string :=
  default "" (kwargs !! k).

Definition regex_of (e : PatternEntry) : string :=
  match e with
  | url regex _ _ => regex
  | pair regex (include urlconf) => regex +:+ urlconf
  end.

Definition label (o : Resource) : string :=
  match resource_name o with
  | Some (PyString s) => s
  | _ => ""
  end.

#[global] Instance host : Host := {|
  _add_resource := λ _ _ o _ w, ("+" +:+ label o) :: w;
  _remove_resource := λ _ _ o w, ("-" +:+ label o) :: w;
  resource_urls := λ o, label o +:+ "/";
  patterns := λ _ l, regex_of <$> l;
  reverse := λ _ kwargs,
    "/api/" +:+ kwarg kwargs "api_name" +:+ "/"
      +:+ kwarg kwargs "resource_name" +:+ "/";
  new_Serializer := tt;
  determine_format := λ request _, request;
  serialize := λ _ d format,
    format +:+ ":" +:+
    foldr (λ kv acc, kv.1 +:+ "=" +:+ kv.2 +:+ ";" +:+ acc) ""
          (map_to_list d);
  build_content_type := λ format, format +:+ "; charset=utf-8"
|}.

(** Keys in the order the map lists them. *)
#[global] Program Instance listed : DictOrder := {|
  keys := λ d, elements (dom d)
|}.
Next Obligation. done. Qed.

(** Keys in the opposite order. *)
Program Definition listed_backwards : DictOrder := {|
  keys := λ d, rev (elements (dom d))
|}.
Next Obligation. intros d. symmetry. apply Permutation_rev. Qed.

Definition named (s : string) : Resource :=
  {| resource_name := Some (PyString s); r_api_name := None; r_body := tt |}.

(** Object 1 is [notes], 2 is [users], 3 is a second [notes], 4 has its
    [resource_name] set to [None], any other object has no such
    attribute. *)
Definition objs (r : ref) : Resource :=
  match r with
  | 1%positive => named "notes"
  | 2%positive => named "users"
  | 3%positive => named "notes"
  | 4%positive =>
      {| resource_name := Some PyNone; r_api_name := None; r_body := tt |}
  | _ => {| resource_name := None; r_api_name := None; r_body := tt |}
  end.

Definition v1 : State := init "v1" objs [].

(** [notes] then [users] registered on [v1]. *)
Definition notes_users : State :=
  run_ops [Register 1 true; Register 2 true] v1.

(** The same two resources registered the other way round. *)
Definition users_notes : State :=
  run_ops [Register 2 true; Register 1 true] v1.

(** [notes] registered on an [Api] named [api_name]. *)
Definition notes_on (api_name : string) : State :=
  run_ops [Register 1 true] (init api_name objs []).

End Demo.

(** ** Vocabulary of the statements *)

Section Vocabulary.
Context {T : HostTypes} {F : Host} {O : DictOrder}.

(** The entry that [urls] appends for the resource registered as [name]:
    the API prefix with the URLconf of that resource, read after its
    [api_name] has been assigned. *)
Definition included_under (st : State) (name : string) (e : PatternEntry)
  : Prop :=
  ∃ r, _registry (self st) !! name = Some r
    ∧ e = pair (prefix_regex (api_name (self st)))
               (include (resource_urls
                  (with_api_name (api_name (self st)) (objects st r)))).

(** The discovery entry that opens [pattern_list]. *)
Definition top_level_entry (st : State) : PatternEntry :=
  url ("^(?P<api_name>" +:+ api_name (self st) +:+ ")/$")
      (wrap_view "top_level")
      ("api_" +:+ api_name (self st) +:+ "_top_level").

(** [st] is [st0] up to [api_name] assignments on resource objects. *)
Definition assigned_from (st0 st : State) : Prop :=
  self st = self st0 ∧ world st = world st0 ∧ warnings st = warnings st0
  ∧ ∀ r, objects st r = objects st0 r
       ∨ objects st r = with_api_name (api_name (self st0)) (objects st0 r).

(** The name an object is registered under, if it has one. *)
Definition name_of (objs : ref → Resource) (resource : ref) : option string :=
  match resource_name (objs resource) with
  | Some (PyString name) => Some name
  | _ => None
  end.

(** Read from the most recent call backwards: the resource most recently
    registered as canonical under [name], unless [name] was unregistered
    since. *)
Fixpoint most_recent_canonical (objs : ref → Resource) (latest_first : list op)
    (name : string) : option ref :=
  match latest_first with
  | [] => None
  | Register resource true :: earlier =>
      if decide (name_of objs resource = Some name) then Some resource
      else most_recent_canonical objs earlier name
  | Unregister name' :: earlier =>
      if decide (name' = name) then None
      else most_recent_canonical objs earlier name
  | _ :: earlier => most_recent_canonical objs earlier name
  end.

(** Read from the most recent call backwards: the resource most recently
    registered under [name], canonical or not, unless [name] was
    unregistered since. *)
Fixpoint most_recent_registered (objs : ref → Resource) (latest_first : list op)
    (name : string) : option ref :=
  match latest_first with
  | [] => None
  | Register resource _ :: earlier =>
      if decide (name_of objs resource = Some name) then Some resource
      else most_recent_registered objs earlier name
  | Unregister name' :: earlier =>
      if decide (name' = name) then None
      else most_recent_registered objs earlier name
  | _ :: earlier => most_recent_registered objs earlier name
  end.

(** [resource] is the value of some key of the registry. *)
Definition routed (a : Api) (resource : ref) : Prop :=
  ∃ name, _registry a !! name = Some resource.

(** Every resource sits under its own [resource_name], in both
    dictionaries. *)
Definition keyed_by_name (st : State) : Prop :=
  ∀ name resource,
    (_registry (self st) !! name = Some resource
     ∨ _canonicals (self st) !! name = Some resource) →
    name_of (objects st) resource = Some name.


End Vocabulary.


(** ** Facts on the ordering of keys *)

Lemma N_of_ascii_inj a b : N_of_ascii a = N_of_ascii b → a = b.
Proof.
  intros E. rewrite <- (ascii_N_embedding a), <- (ascii_N_embedding b).
  by rewrite E.
Qed.

#[global] Instance PyStr_le_refl : Reflexive PyStr.le.
Proof.
  intros s. unfold PyStr.le. induction s as [|a s IH]; simpl; [done|].
  rewrite N.ltb_irrefl, N.eqb_refl. exact IH.
Qed.

#[global] Instance PyStr_le_total : Total PyStr.le.
Proof.
  intros s1. unfold PyStr.le. induction s1 as [|a s1 IH]; intros [|b s2]; simpl;
    [by left | by left | by right |].
  destruct (N.ltb_spec (N_of_ascii a) (N_of_ascii b)) as [Hab|Hab];
    [by left|].
  destruct (N.ltb_spec (N_of_ascii b) (N_of_ascii a)) as [Hba|Hba];
    [by right|].
  assert (N_of_ascii a = N_of_ascii b) as E by lia.
  rewrite E, N.eqb_refl. apply IH.
Qed.

#[global] Instance PyStr_le_trans : Transitive PyStr.le.
Proof.
  intros s1. unfold PyStr.le.
  induction s1 as [|a s1 IH]; intros [|b s2] [|c s3]; simpl; try done.
  destruct (N.ltb_spec (N_of_ascii a) (N_of_ascii b)) as [Hab|Hab];
    destruct (N.ltb_spec (N_of_ascii b) (N_of_ascii c)) as [Hbc|Hbc];
    destruct (N.ltb_spec (N_of_ascii a) (N_of_ascii c)) as [Hac|Hac];
    try done; try lia.
  - destruct (N.eqb_spec (N_of_ascii b) (N_of_ascii c)); [lia | done].
  - destruct (N.eqb_spec (N_of_ascii a) (N_of_ascii b)); [lia | done].
  - destruct (N.eqb_spec (N_of_ascii a) (N_of_ascii b)) as [E1|]; [|done].
    destruct (N.eqb_spec (N_of_ascii b) (N_of_ascii c)) as [E2|]; [|done].
    rewrite E1, E2, N.eqb_refl. apply IH.
Qed.

#[global] Instance PyStr_le_antisymm : AntiSymm (=) PyStr.le.
Proof.
  intros s1. unfold PyStr.le.
  induction s1 as [|a s1 IH]; intros [|b s2]; simpl; try done.
  destruct (N.ltb_spec (N_of_ascii a) (N_of_ascii b)) as [Hab|Hab];
    destruct (N.ltb_spec (N_of_ascii b) (N_of_ascii a)) as [Hba|Hba];
    try lia.
  - destruct (N.eqb_spec (N_of_ascii b) (N_of_ascii a)); [lia | done].
  - destruct (N.eqb_spec (N_of_ascii a) (N_of_ascii b)); [lia | done].
  - destruct (N.eqb_spec (N_of_ascii a) (N_of_ascii b)) as [E|]; [|done].
    rewrite E, N.eqb_refl. intros H1 H2.
    f_equal; [by apply N_of_ascii_inj | by apply IH].
Qed.


(** ** Properties *)

Section Properties.
Context {T : HostTypes} {F : Host} {O : DictOrder}.
Local Open Scope py_scope.

Ltac run := unfold bind, get, put, ret, raise, set_self, set_world; simpl.

(** *** Closed forms of [register] and [unregister] *)

Lemma register_unnamed resource canonical st :
  default PyNone (resource_name (objects st resource)) = PyNone →
  register resource canonical st = (Raise (ImproperlyConfigured resource), st).
Proof.
  intros E. unfold register, getattr_resource_name. run. by rewrite E.
Qed.

Lemma register_named resource canonical st name :
  default PyNone (resource_name (objects st resource)) = PyString name →
  ∃ st', register resource canonical st = (Return tt, st')
    ∧ api_name (self st') = api_name (self st)
    ∧ _registry (self st') = <[name := resource]> (_registry (self st))
    ∧ _canonicals (self st') =
        (if canonical then <[name := resource]> (_canonicals (self st))
         else _canonicals (self st))
    ∧ objects st' = objects st.
Proof.
  intros E. unfold register, getattr_resource_name. run. rewrite E.
  unfold registry_setitem, canonicals_setitem, warn. run.
  destruct canonical; run; [case_decide; run|]; eauto 10.
Qed.

Lemma unregister_returns name st :
  ∃ st', unregister name st = (Return tt, st')
    ∧ api_name (self st') = api_name (self st)
    ∧ _registry (self st') = delete name (_registry (self st))
    ∧ _canonicals (self st') = delete name (_canonicals (self st))
    ∧ objects st' = objects st
    ∧ warnings st' = warnings st
    ∧ world st' =
        match _registry (self st) !! name with
        | Some r => _remove_resource (self st) r (objects st r) (world st)
        | None => world st
        end.
Proof.
  unfold unregister, registry_getitem, registry_delitem, canonicals_delitem.
  run. destruct (_registry (self st) !! name) as [r|] eqn:Er.
  - rewrite decide_True by (apply elem_of_dom; eauto). run. rewrite Er. run.
    rewrite Er. run.
    destruct (_canonicals (self st) !! name) as [c|] eqn:Ec.
    + rewrite decide_True by (apply elem_of_dom; eauto). run. rewrite Ec.
      run. eauto 10.
    + rewrite decide_False by (by apply not_elem_of_dom). run.
      rewrite (delete_id _ _ Ec). eauto 10.
  - rewrite decide_False by (by apply not_elem_of_dom). run.
    rewrite (delete_id _ _ Er).
    destruct (_canonicals (self st) !! name) as [c|] eqn:Ec.
    + rewrite decide_True by (apply elem_of_dom; eauto). run. rewrite Ec.
      run. eauto 10.
    + rewrite decide_False by (by apply not_elem_of_dom). run.
      rewrite (delete_id _ _ Ec). eauto 10.
Qed.

Lemma unregister_absent name st :
  name ∉ dom (_registry (self st)) →
  name ∉ dom (_canonicals (self st)) →
  unregister name st = (Return tt, st).
Proof.
  intros Hr Hc. unfold unregister. run.
  by rewrite !decide_False.
Qed.

(** *** The sorted listing of the keys *)

Lemma sorted_Permutation (l1 l2 : list string) :
  l1 ≡ₚ l2 → PyStr.sorted l1 = PyStr.sorted l2.
Proof.
  intros Hp. unfold PyStr.sorted.
  apply (Sorted_unique PyStr.le); try apply Sorted_merge_sort; try apply _.
  by rewrite !merge_sort_Permutation.
Qed.

Lemma sorted_keys_Permutation (d : gmap string ref) :
  PyStr.sorted (keys d) ≡ₚ elements (dom d).
Proof.
  unfold PyStr.sorted. rewrite merge_sort_Permutation. apply keys_Permutation.
Qed.

Lemma elem_of_sorted_keys (d : gmap string ref) name :
  name ∈ PyStr.sorted (keys d) ↔ name ∈ dom d.
Proof. rewrite sorted_keys_Permutation. apply elem_of_elements. Qed.

Lemma NoDup_sorted_keys (d : gmap string ref) :
  NoDup (PyStr.sorted (keys d)).
Proof. rewrite sorted_keys_Permutation. apply NoDup_elements. Qed.

Lemma length_sorted_keys (d : gmap string ref) :
  length (PyStr.sorted (keys d)) = size d.
Proof.
  rewrite sorted_keys_Permutation. rewrite <- size_dom. done.
Qed.

Lemma StronglySorted_le_lt (l : list string) :
  StronglySorted PyStr.le l → NoDup l → StronglySorted PyStr.lt l.
Proof.
  induction 1 as [|x l Hs IH Hx]; intros Hnd; [constructor|].
  apply NoDup_cons in Hnd as [Hx' Hnd].
  constructor; [by apply IH|].
  apply Forall_forall. intros y Hy. split.
  - by eapply Forall_forall in Hx.
  - intros ->. done.
Qed.

Lemma ascending_sorted_keys (d : gmap string ref) :
  StronglySorted PyStr.lt (PyStr.sorted (keys d)).
Proof.
  apply StronglySorted_le_lt; [|apply NoDup_sorted_keys].
  unfold PyStr.sorted. apply StronglySorted_merge_sort; apply _.
Qed.

(** *** The loop of [urls] *)

Lemma with_api_name_idemp v (o : Resource) :
  with_api_name v (with_api_name v o) = with_api_name v o.
Proof. done. Qed.

Lemma assigned_from_refl st : assigned_from st st.
Proof. repeat split; auto. Qed.

Lemma urls_body_runs st0 st acc name :
  assigned_from st0 st →
  name ∈ dom (_registry (self st0)) →
  ∃ st' e, urls_body acc name st = (Return (acc ++ [e]), st')
    ∧ included_under st0 name e ∧ assigned_from st0 st'.
Proof.
  intros (Hself & Hw & Hwarn & Hobj) [r Hr]%elem_of_dom.
  unfold urls_body, registry_getitem, setattr_api_name. run.
  rewrite Hself, Hr. run. rewrite Hself, Hr. run.
  rewrite decide_True by done.
  eexists _, _. split; [reflexivity|]. split.
  - exists r. split; [done|]. do 3 f_equal.
    destruct (Hobj r) as [-> | ->]; done.
  - repeat split; simpl; try done.
    intros r'. case_decide as Hd.
    + subst r'. right. destruct (Hobj r) as [-> | ->]; done.
    + apply Hobj.
Qed.

Lemma urls_loop_runs st0 names : ∀ st acc,
  assigned_from st0 st →
  Forall (λ name, name ∈ dom (_registry (self st0))) names →
  ∃ st' rest, for_in names acc urls_body st = (Return (acc ++ rest), st')
    ∧ Forall2 (included_under st0) names rest ∧ assigned_from st0 st'.
Proof.
  induction names as [|name names IH]; intros st acc Hst Hin.
  - exists st, []. simpl. rewrite app_nil_r.
    split; [done|]. split; [constructor|done].
  - apply Forall_cons in Hin as [Hname Hin].
    destruct (urls_body_runs st0 st acc name Hst Hname)
      as (st1 & e & Hrun & He & Hst1).
    destruct (IH st1 (acc ++ [e]) Hst1 Hin) as (st' & rest & Hloop & Hrest & Hst').
    exists st', (e :: rest). simpl. unfold bind at 1. rewrite Hrun, Hloop.
    rewrite <- app_assoc. simpl. split; [done|]. split; [by constructor|done].
Qed.

Lemma urls_runs st :
  ∃ st' rest,
    urls st = (Return (patterns "" (top_level_entry st :: rest)), st')
    ∧ Forall2 (included_under st) (PyStr.sorted (keys (_registry (self st)))) rest
    ∧ assigned_from st st'.
Proof.
  destruct (urls_loop_runs st (PyStr.sorted (keys (_registry (self st)))) st
              [top_level_entry st] (assigned_from_refl st))
    as (st' & rest & Hloop & Hrest & Hst').
  { apply Forall_forall. intros name. by rewrite elem_of_sorted_keys. }
  exists st', rest. split; [|done].
  unfold urls. unfold bind, get at 1. simpl.
  unfold top_level_entry in Hloop. rewrite Hloop. done.
Qed.

(** *** Closed forms of the read-only methods *)

Lemma canonical_resource_for_eq name st :
  canonical_resource_for name st =
    (match _canonicals (self st) !! name with
     | Some r => Return r
     | None => Raise (NotRegistered name)
     end, st).
Proof.
  unfold canonical_resource_for, canonicals_getitem. run.
  destruct (_canonicals (self st) !! name) as [r|] eqn:E.
  - rewrite decide_True by (apply elem_of_dom; eauto). run. by rewrite E.
  - by rewrite decide_False by (by apply not_elem_of_dom).
Qed.

Lemma top_level_state request api_name_arg st :
  (top_level request api_name_arg st).2 = st.
Proof. done. Qed.

Lemma lookup_foldl_insert (f : string → string) (l : list string) :
  ∀ (d : gmap string string) name,
    foldl (λ d name, <[name := f name]> d) d l !! name =
      if decide (name ∈ l) then Some (f name) else d !! name.
Proof.
  induction l as [|x l IH]; intros d name.
  - cbn [foldl]. case_decide as Hin; [by apply elem_of_nil in Hin | done].
  - cbn [foldl]. rewrite IH.
    destruct (decide (name ∈ l)) as [Hin|Hin].
    + rewrite decide_True; [done | by right].
    + destruct (decide (name = x)) as [->|Hne].
      * rewrite lookup_insert_eq. rewrite decide_True; [done | by left].
      * rewrite lookup_insert_ne by done.
        rewrite decide_False; [done|]. by intros [?|?]%elem_of_cons.
Qed.

(** *** What one call does to the two dictionaries *)

Lemma name_of_default objs resource :
  default PyNone (resource_name (objs resource)) =
    match name_of objs resource with
    | Some name => PyString name
    | None => PyNone
    end.
Proof.
  unfold name_of. by destruct (resource_name (objs resource)) as [[|?]|].
Qed.

Lemma step_effect st o :
  api_name (self (step st o)) = api_name (self st)
  ∧ (∀ r, resource_name (objects (step st o) r) = resource_name (objects st r))
  ∧ match o with
    | Register resource canonical =>
        match name_of (objects st) resource with
        | Some name =>
            _registry (self (step st o)) = <[name := resource]> (_registry (self st))
            ∧ _canonicals (self (step st o)) =
                (if canonical then <[name := resource]> (_canonicals (self st))
                 else _canonicals (self st))
        | None => step st o = st
        end
    | Unregister name =>
        _registry (self (step st o)) = delete name (_registry (self st))
        ∧ _canonicals (self (step st o)) = delete name (_canonicals (self st))
    | _ => self (step st o) = self st
    end.
Proof.
  unfold step. destruct o as [resource canonical|name|name| |request arg]; simpl.
  - pose proof (name_of_default (objects st) resource) as Hn.
    destruct (name_of (objects st) resource) as [name|].
    + destruct (register_named resource canonical st name Hn)
        as (st' & -> & Ha & Hr & Hc & Ho). simpl. by rewrite Ho.
    + by rewrite (register_unnamed resource canonical st Hn).
  - destruct (unregister_returns name st)
      as (st' & -> & Ha & Hr & Hc & Ho & _). simpl. by rewrite Ho.
  - unfold bind. by rewrite canonical_resource_for_eq;
      destruct (_canonicals (self st) !! name).
  - destruct (urls_runs st) as (st' & rest & Hrun & _ & Hself & _ & _ & Hobj).
    unfold bind. rewrite Hrun. simpl. rewrite Hself.
    split; [done|]. split; [|done].
    intros r. by destruct (Hobj r) as [-> | ->].
  - done.
Qed.

Lemma run_ops_snoc l o st : run_ops (l ++ [o]) st = step (run_ops l st) o.
Proof. unfold run_ops. by rewrite foldl_app. Qed.

Lemma run_ops_resource_name l st r :
  resource_name (objects (run_ops l st) r) = resource_name (objects st r).
Proof.
  induction l as [|o l IH] using rev_ind; [done|].
  rewrite run_ops_snoc.
  destruct (step_effect (run_ops l st) o) as (_ & Hn & _). by rewrite Hn.
Qed.

Lemma run_ops_name_of l st r :
  name_of (objects (run_ops l st)) r = name_of (objects st) r.
Proof. unfold name_of. by rewrite run_ops_resource_name. Qed.

Lemma step_canonicals_registered st o :
  canonicals_registered (self st) → canonicals_registered (self (step st o)).
Proof.
  unfold canonicals_registered. intros Hinv.
  destruct (step_effect st o) as (_ & _ & Heff).
  destruct o as [resource canonical|name|name| |request arg];
    try (by rewrite Heff).
  - destruct (name_of (objects st) resource) as [name|]; [|by rewrite Heff].
    destruct Heff as [-> ->]. destruct canonical.
    + rewrite !dom_insert_L. by apply union_mono_l.
    + rewrite dom_insert_L. by apply union_subseteq_r'.
  - destruct Heff as [-> ->]. rewrite !dom_delete_L.
    by apply difference_mono_r.
Qed.

Lemma run_ops_canonicals_registered l st :
  canonicals_registered (self st) → canonicals_registered (self (run_ops l st)).
Proof.
  intros Hinv. induction l as [|o l IH] using rev_ind; [done|].
  rewrite run_ops_snoc. by apply step_canonicals_registered.
Qed.

Lemma init_canonicals_registered a objs w :
  canonicals_registered (self (init a objs w)).
Proof. unfold canonicals_registered. simpl. done. Qed.

Lemma canonicals_run_ops a objs w l name :
  _canonicals (self (run_ops l (init a objs w))) !! name =
    most_recent_canonical objs (rev l) name.
Proof.
  induction l as [|o l IH] using rev_ind; [done|].
  rewrite run_ops_snoc, rev_unit.
  destruct (step_effect (run_ops l (init a objs w)) o) as (_ & _ & Heff).
  destruct o as [resource canonical|name'|name'| |request arg]; simpl;
    try (by rewrite Heff).
  - rewrite run_ops_name_of in Heff. simpl in Heff.
    destruct (name_of objs resource) as [name'|] eqn:En.
    + destruct Heff as [_ ->]. destruct canonical; [|done].
      destruct (decide (name' = name)) as [->|Hne].
      * rewrite lookup_insert_eq. by rewrite decide_True.
      * rewrite lookup_insert_ne by done.
        rewrite decide_False by congruence. done.
    + rewrite Heff. destruct canonical; [|done].
      by rewrite decide_False.
  - destruct Heff as [_ ->]. destruct (decide (name' = name)) as [->|Hne].
    + apply lookup_delete_eq.
    + by rewrite lookup_delete_ne.
Qed.

(** *** The discovery view *)

(** C1: [top_level] returns a response whose body serializes a mapping whose
    keys are exactly the registered names, each mapped to the reversed
    [api_dispatch_list] URL for that name and the [api_name] argument
    ([self.api_name] when the argument is [None]). *)
Theorem top_level_lists_registry st request api_name_arg :
  let format := determine_format request new_Serializer in
  let api := default (api_name (self st)) api_name_arg in
  ∃ available : gmap string string,
    top_level request api_name_arg st =
      (Return {| content := serialize new_Serializer available format;
                 content_type := build_content_type format |}, st)
    ∧ dom available = dom (_registry (self st))
    ∧ ∀ name,
        available !! name =
          (λ _, reverse "api_dispatch_list"
                  {[ "api_name" := api; "resource_name" := name ]})
            <$> _registry (self st) !! name.
Proof.
  intros format api. eexists. split; [reflexivity|].
  assert (∀ name,
    foldl (λ (d : gmap string string) name,
             <[name := reverse "api_dispatch_list"
                         {[ "api_name" := api; "resource_name" := name ]}]> d)
          ∅ (PyStr.sorted (keys (_registry (self st)))) !! name =
    (λ _, reverse "api_dispatch_list"
            {[ "api_name" := api; "resource_name" := name ]})
      <$> _registry (self st) !! name) as Hlookup.
  { intros name.
    rewrite (lookup_foldl_insert
      (λ name, reverse "api_dispatch_list"
                 {[ "api_name" := api; "resource_name" := name ]})).
    case_decide as Hin; rewrite elem_of_sorted_keys in Hin.
    - apply elem_of_dom in Hin as [r ->]. done.
    - apply not_elem_of_dom in Hin as ->. done. }
  split; [|exact Hlookup].
  apply set_eq. intros name. rewrite !elem_of_dom, Hlookup.
  by rewrite fmap_is_Some.
Qed.

(** C7: [top_level] only reads: it returns, and the state it leaves, the
    registry and the canonicals mapping included, is the state it found. *)
Theorem top_level_leaves_state st request api_name_arg :
  ∃ response, top_level request api_name_arg st = (Return response, st)
    ∧ _registry (self (snd (top_level request api_name_arg st)))
        = _registry (self st)
    ∧ _canonicals (self (snd (top_level request api_name_arg st)))
        = _canonicals (self st).
Proof. eexists. split; [reflexivity|]. done. Qed.

(** *** Registration *)

(** C8: [register] raises exactly when the resource has no [resource_name]
    attribute or has it set to [None]; the exception is then
    [ImproperlyConfigured] and the state, registry and canonicals included,
    is left as it was. *)
Theorem register_raises_iff st resource canonical :
  ((register resource canonical st).1 = Raise (ImproperlyConfigured resource)
     ↔ (resource_name (objects st resource) = None
        ∨ resource_name (objects st resource) = Some PyNone))
  ∧ (∀ e, (register resource canonical st).1 = Raise e →
       e = ImproperlyConfigured resource
       ∧ (register resource canonical st).2 = st).
Proof.
  destruct (resource_name (objects st resource)) as [[|name]|] eqn:E.
  - rewrite (register_unnamed resource canonical st) by (by rewrite E).
    simpl. split; [split; eauto|]. intros e [= <-]. done.
  - destruct (register_named resource canonical st name) as (st' & -> & _);
      [by rewrite E|].
    simpl. split; [|done]. split; [done|]. by intros [?|?].
  - rewrite (register_unnamed resource canonical st) by (by rewrite E).
    simpl. split; [split; eauto|]. intros e [= <-]. done.
Qed.

(** C3: registering a resource whose [resource_name] is [name] returns and
    leaves the registry mapping [name] to that resource, whatever was
    registered under [name] before, the other names keeping their resource;
    and after any further calls each name is listed once among the items of
    the registry. *)
Theorem register_maps_name st resource canonical name :
  resource_name (objects st resource) = Some (PyString name) →
  ∃ st', register resource canonical st = (Return tt, st')
    ∧ _registry (self st') !! name = Some resource
    ∧ (∀ other, other ≠ name →
         _registry (self st') !! other = _registry (self st) !! other)
    ∧ ∀ l, NoDup (map_to_list (_registry (self (run_ops l st')))).*1.
Proof.
  intros E.
  destruct (register_named resource canonical st name) as (st' & Hrun & _ & Hr & _);
    [by rewrite E|].
  exists st'. split; [done|]. rewrite Hr. split; [apply lookup_insert_eq|].
  split; [intros other Hne; by rewrite lookup_insert_ne|].
  intros l. apply NoDup_fst_map_to_list.
Qed.

(** C5: [unregister] returns and leaves [resource_name] out of both the
    registry and the canonicals mapping, the other names untouched; calling
    it again changes nothing; and in a state where every canonical name is
    registered, as [Api] keeps it, it changes nothing when [resource_name]
    is not registered. *)
Theorem unregister_removes st name :
  ∃ st', unregister name st = (Return tt, st')
    ∧ _registry (self st') = delete name (_registry (self st))
    ∧ _canonicals (self st') = delete name (_canonicals (self st))
    ∧ (name ∉ dom (_registry (self st')))
    ∧ (name ∉ dom (_canonicals (self st')))
    ∧ unregister name st' = (Return tt, st')
    ∧ (name ∉ dom (_registry (self st)) →
       canonicals_registered (self st) → st' = st).
Proof.
  destruct (unregister_returns name st) as (st' & Hrun & _ & Hr & Hc & _).
  exists st'. split; [done|]. split; [done|]. split; [done|].
  assert (name ∉ dom (_registry (self st'))) as Hr'.
  { rewrite Hr. apply not_elem_of_dom, lookup_delete_eq. }
  assert (name ∉ dom (_canonicals (self st'))) as Hc'.
  { rewrite Hc. apply not_elem_of_dom, lookup_delete_eq. }
  split; [done|]. split; [done|]. split; [by apply unregister_absent|].
  intros Hnr Hinv.
  rewrite unregister_absent in Hrun; [congruence | done |].
  intros Hin. apply Hnr. by apply Hinv.
Qed.

(** *** Canonical resources *)

(** C9: after any history of calls on a fresh [Api], [canonical_resource_for]
    returns the resource most recently registered as canonical under the
    name when there is one and the name was not unregistered since, raises
    [NotRegistered] otherwise, and leaves the state as it was. *)
Theorem canonical_resource_for_most_recent a objs w l name :
  let st := run_ops l (init a objs w) in
  canonical_resource_for name st =
    (match most_recent_canonical objs (rev l) name with
     | Some resource => Return resource
     | None => Raise (NotRegistered name)
     end, st).
Proof.
  intros st. rewrite canonical_resource_for_eq. unfold st.
  by rewrite canonicals_run_ops.
Qed.

(** C10: after any history of calls on a fresh [Api], every key of the
    canonicals mapping is a key of the registry. *)
Theorem canonicals_always_registered a objs w l :
  canonicals_registered (self (run_ops l (init a objs w))).
Proof.
  apply run_ops_canonicals_registered, init_canonicals_registered.
Qed.

(** *** The URLconf *)

(** C2: [urls] returns the patterns built from a list that opens with the
    discovery view at ["^(?P<api_name>{api_name})/$"] and whose other
    entries are includes under ["^(?P<api_name>{api_name})/"], the URLconf
    of every registered resource being among them. *)
Theorem urls_under_api_name st :
  ∃ st' rest,
    urls st =
      (Return (patterns ""
         (url ("^(?P<api_name>" +:+ api_name (self st) +:+ ")/$")
              (wrap_view "top_level")
              ("api_" +:+ api_name (self st) +:+ "_top_level") :: rest)), st')
    ∧ call_view (wrap_view "top_level") = top_level
    ∧ Forall (λ e, ∃ included,
                e = pair ("^(?P<api_name>" +:+ api_name (self st) +:+ ")/")
                         included) rest
    ∧ ∀ name resource,
        _registry (self st) !! name = Some resource →
        pair ("^(?P<api_name>" +:+ api_name (self st) +:+ ")/")
             (include (resource_urls
                (with_api_name (api_name (self st)) (objects st resource))))
          ∈ rest.
Proof.
  destruct (urls_runs st) as (st' & rest & Hrun & Hrest & _).
  exists st', rest. split; [exact Hrun|]. split; [done|]. split.
  - clear Hrun. induction Hrest as [|name e names rest (r & _ & ->) _ IH];
      constructor; eauto.
  - intros name resource Hname.
    assert (name ∈ PyStr.sorted (keys (_registry (self st)))) as Hin.
    { apply elem_of_sorted_keys, elem_of_dom. eauto. }
    clear Hrun. induction Hrest as [|name' e names rest He _ IH];
      [by apply elem_of_nil in Hin|].
    apply elem_of_cons in Hin as [<-|Hin].
    + destruct He as (r & Hr & ->).
      assert (r = resource) as -> by congruence. by left.
    + right. by apply IH.
Qed.

(** C4: the list [urls] builds opens with the discovery entry and goes on
    with one include per registered resource, in ascending order of the
    registered names. *)
Theorem urls_in_name_order st :
  ∃ st' names rest,
    urls st = (Return (patterns "" (top_level_entry st :: rest)), st')
    ∧ Forall2 (included_under st) names rest
    ∧ StronglySorted PyStr.lt names
    ∧ names ≡ₚ elements (dom (_registry (self st)))
    ∧ length rest = size (_registry (self st)).
Proof.
  destruct (urls_runs st) as (st' & rest & Hrun & Hrest & _).
  exists st', (PyStr.sorted (keys (_registry (self st)))), rest.
  split; [exact Hrun|]. split; [exact Hrest|].
  split; [apply ascending_sorted_keys|].
  split; [apply sorted_keys_Permutation|].
  rewrite <- (Forall2_length _ _ _ Hrest). apply length_sorted_keys.
Qed.

End Properties.

(** *** Determinism *)

Section Determinism.
Context {T : HostTypes} {F : Host}.

Lemma included_under_agree st1 st2 names :
  api_name (self st1) = api_name (self st2) →
  _registry (self st1) = _registry (self st2) →
  (∀ r, objects st1 r = objects st2 r) →
  ∀ rest1 rest2,
    Forall2 (included_under st1) names rest1 →
    Forall2 (included_under st2) names rest2 →
    rest1 = rest2.
Proof.
  intros Ha Hr Ho. induction names as [|name names IH]; intros rest1 rest2 H1 H2.
  - apply Forall2_nil_inv_l in H1, H2. congruence.
  - apply Forall2_cons_inv_l in H1 as (e1 & rest1' & He1 & H1 & ->).
    apply Forall2_cons_inv_l in H2 as (e2 & rest2' & He2 & H2 & ->).
    f_equal; [|by apply IH].
    destruct He1 as (r1 & Hr1 & ->), He2 as (r2 & Hr2 & ->).
    rewrite Hr in Hr1. assert (r1 = r2) as -> by congruence.
    by rewrite Ha, Ho.
Qed.

(** C6, amended: two runs of [urls], or of [top_level] on the same request
    and [api_name] argument, from states with the same [api_name], the same
    registry and canonicals and the same resource objects, give the same
    output, in whatever order each run's dictionary lists its keys. *)
Theorem outputs_determined (O1 O2 : DictOrder) st1 st2 request api_name_arg :
  api_name (self st1) = api_name (self st2) →
  _registry (self st1) = _registry (self st2) →
  _canonicals (self st1) = _canonicals (self st2) →
  (∀ r, objects st1 r = objects st2 r) →
  (@urls T F O1 st1).1 = (@urls T F O2 st2).1
  ∧ (@top_level T F O1 request api_name_arg st1).1
      = (@top_level T F O2 request api_name_arg st2).1.
Proof.
  intros Ha Hr Hc Ho.
  assert (PyStr.sorted (@keys O1 (_registry (self st1))) =
          PyStr.sorted (@keys O2 (_registry (self st2)))) as Hkeys.
  { apply sorted_Permutation. rewrite Hr.
    by rewrite (@keys_Permutation O1), (@keys_Permutation O2). }
  split.
  - destruct (@urls_runs T F O1 st1) as (st1' & rest1 & -> & Hrest1 & _).
    destruct (@urls_runs T F O2 st2) as (st2' & rest2 & -> & Hrest2 & _).
    simpl. rewrite Hkeys in Hrest1.
    rewrite (included_under_agree st1 st2 _ Ha Hr Ho rest1 rest2 Hrest1 Hrest2).
    unfold top_level_entry. by rewrite Ha.
  - unfold top_level, bind, get, ret. simpl. by rewrite Hkeys, Ha.
Qed.

End Determinism.

(** ** Further properties of the methods *)

Section Further.
Context {T : HostTypes} {F : Host} {O : DictOrder}.
Local Open Scope py_scope.

Ltac run := unfold bind, get, put, ret, raise, set_self, set_world; simpl.

(** *** [register] *)

Lemma register_named_effects resource canonical st name :
  default PyNone (resource_name (objects st resource)) = PyString name →
  ∃ st', register resource canonical st = (Return tt, st')
    ∧ api_name (self st') = api_name (self st)
    ∧ _registry (self st') = <[name := resource]> (_registry (self st))
    ∧ _canonicals (self st') =
        (if canonical then <[name := resource]> (_canonicals (self st))
         else _canonicals (self st))
    ∧ objects st' = objects st
    ∧ warnings st' =
        warnings st ++
          (if canonical
           then if decide (name ∈ dom (_canonicals (self st)))
                then [(resource, name)] else []
           else [])
    ∧ world st' =
        _add_resource (self st') resource (objects st resource) canonical
          (world st).
Proof.
  intros E. unfold register, getattr_resource_name. run. rewrite E.
  unfold registry_setitem, canonicals_setitem, warn. run.
  destruct canonical; run; [case_decide; run|];
    rewrite ?app_nil_r; eauto 10.
Qed.

Lemma name_of_Some (objs : ref → Resource) resource name :
  resource_name (objs resource) = Some (PyString name) →
  default PyNone (resource_name (objs resource)) = PyString name.
Proof. by intros ->. Qed.

(** X1: a canonical registration under a name that already has a canonical
    resource logs one warning naming the new resource and the name; any
    other registration that returns logs none, and earlier warnings are
    kept. *)
Theorem register_warns_on_replacing st resource canonical name :
  resource_name (objects st resource) = Some (PyString name) →
  warnings (register resource canonical st).2 =
    warnings st ++
      (if canonical
       then if decide (name ∈ dom (_canonicals (self st)))
            then [(resource, name)] else []
       else []).
Proof.
  intros E%name_of_Some.
  destruct (register_named_effects resource canonical st name E)
    as (st' & -> & _ & _ & _ & _ & Hw & _). exact Hw.
Qed.

(** X2: right after a canonical registration of a resource named [name],
    [canonical_resource_for name] returns that resource. *)
Theorem register_then_canonical_resource_for st resource name :
  resource_name (objects st resource) = Some (PyString name) →
  (canonical_resource_for name (register resource true st).2).1
    = Return resource.
Proof.
  intros E%name_of_Some.
  destruct (register_named_effects resource true st name E)
    as (st' & -> & _ & _ & Hc & _). simpl.
  rewrite canonical_resource_for_eq, Hc, lookup_insert_eq. done.
Qed.

(** X3: a registration with [canonical=False] puts the resource in the
    registry and leaves every answer of [canonical_resource_for] as it
    was, so a name registered only this way has no canonical resource. *)
Theorem register_noncanonical_keeps_canonical st resource name :
  resource_name (objects st resource) = Some (PyString name) →
  _registry (self (register resource false st).2) !! name = Some resource
  ∧ ∀ other,
      (canonical_resource_for other (register resource false st).2).1
        = (canonical_resource_for other st).1.
Proof.
  intros E%name_of_Some.
  destruct (register_named_effects resource false st name E)
    as (st' & -> & _ & Hr & Hc & _). simpl.
  split; [by rewrite Hr, lookup_insert_eq|].
  intros other. by rewrite !canonical_resource_for_eq, Hc.
Qed.

(** X4: registering a resource under a name that is in neither dictionary
    and unregistering that name gives back the [Api] as it was: same
    [api_name], registry and canonicals, and the same resource objects. *)
Theorem register_unregister_round_trip st resource canonical name :
  resource_name (objects st resource) = Some (PyString name) →
  name ∉ dom (_registry (self st)) →
  name ∉ dom (_canonicals (self st)) →
  self (unregister name (register resource canonical st).2).2 = self st
  ∧ objects (unregister name (register resource canonical st).2).2 = objects st.
Proof.
  intros E%name_of_Some Hr%not_elem_of_dom Hc%not_elem_of_dom.
  destruct (register_named_effects resource canonical st name E)
    as (st1 & -> & Ha1 & Hr1 & Hc1 & Ho1 & _). simpl.
  destruct (unregister_returns name st1)
    as (st2 & -> & Ha2 & Hr2 & Hc2 & Ho2 & _). simpl.
  split; [|by rewrite Ho2].
  destruct (self st2) as [a2 r2 c2], (self st) as [a r c]. simpl in *.
  subst a2 r2 c2. rewrite Ha1, Hr1, Hc1. f_equal.
  - by rewrite delete_insert_eq, delete_id.
  - destruct canonical; [by rewrite delete_insert_eq, delete_id | by rewrite delete_id].
Qed.

(** X12: a registration that returns hands the resource to [_add_resource]
    once, after both dictionaries were updated, so the callee sees the
    resource already registered; a registration that raises does not call
    it. *)
Theorem register_adds_globally st resource canonical :
  match name_of (objects st) resource with
  | Some name =>
      world (register resource canonical st).2 =
        _add_resource (self (register resource canonical st).2) resource
          (objects st resource) canonical (world st)
      ∧ _registry (self (register resource canonical st).2) !! name
          = Some resource
  | None => world (register resource canonical st).2 = world st
  end.
Proof.
  pose proof (name_of_default (objects st) resource) as Hn.
  destruct (name_of (objects st) resource) as [name|].
  - destruct (register_named_effects resource canonical st name Hn)
      as (st' & -> & _ & Hr & _ & _ & _ & Hw). simpl.
    split; [exact Hw | by rewrite Hr, lookup_insert_eq].
  - by rewrite (register_unnamed resource canonical st Hn).
Qed.

(** *** [unregister] *)

(** X5: after [unregister name], [canonical_resource_for name] raises
    [NotRegistered], and for every other name it answers as before. *)
Theorem unregister_forgets_canonical st name other :
  (canonical_resource_for other (unregister name st).2).1 =
    if decide (other = name) then Raise (NotRegistered name)
    else (canonical_resource_for other st).1.
Proof.
  destruct (unregister_returns name st) as (st' & -> & _ & _ & Hc & _). simpl.
  rewrite !canonical_resource_for_eq, Hc. simpl.
  case_decide as Hd.
  - subst other. by rewrite lookup_delete_eq.
  - by rewrite lookup_delete_ne.
Qed.

(** X13: [unregister] hands the resource registered under the name to
    [_remove_resource], once and before deleting it, so the callee still
    sees it registered; when the name is not registered it does not call
    it, even if the name is deleted from the canonicals. *)
Theorem unregister_removes_globally st name :
  world (unregister name st).2 =
    match _registry (self st) !! name with
    | Some resource =>
        _remove_resource (self st) resource (objects st resource) (world st)
    | None => world st
    end.
Proof.
  destruct (unregister_returns name st) as (st' & -> & _ & _ & _ & _ & _ & Hw).
  exact Hw.
Qed.

(** *** [urls] *)

Lemma urls_body_assigns st0 st acc name r :
  assigned_from st0 st →
  _registry (self st0) !! name = Some r →
  ∃ st' e, urls_body acc name st = (Return (acc ++ [e]), st')
    ∧ assigned_from st0 st'
    ∧ objects st' r = with_api_name (api_name (self st0)) (objects st0 r)
    ∧ ∀ r', r' ≠ r → objects st' r' = objects st r'.
Proof.
  intros (Hself & Hw & Hwarn & Hobj) Hr.
  unfold urls_body, registry_getitem, setattr_api_name. run.
  rewrite Hself, Hr. run. rewrite Hself, Hr. run.
  eexists _, _. split; [reflexivity|].
  assert (with_api_name (api_name (self st0)) (objects st r)
          = with_api_name (api_name (self st0)) (objects st0 r)) as Hr'.
  { by destruct (Hobj r) as [-> | ->]. }
  split; [|split].
  - repeat split; simpl; try done.
    intros r'. case_decide as Hd; [subst r'; by right | apply Hobj].
  - simpl. by rewrite decide_True.
  - intros r' Hne. simpl. by rewrite decide_False.
Qed.

Lemma urls_loop_assigns st0 names : ∀ st acc,
  assigned_from st0 st →
  Forall (λ name, name ∈ dom (_registry (self st0))) names →
  ∃ st' out, for_in names acc urls_body st = (Return out, st')
    ∧ assigned_from st0 st'
    ∧ ∀ r, if decide (Exists (λ name, _registry (self st0) !! name = Some r) names)
           then objects st' r
                = with_api_name (api_name (self st0)) (objects st0 r)
           else objects st' r = objects st r.
Proof.
  induction names as [|name names IH]; intros st acc Hst Hin.
  - exists st, acc. split; [done|]. split; [done|]. intros r.
    case_decide as Hd; [by apply Exists_nil in Hd | done].
  - apply Forall_cons in Hin as [[r1 Hr1]%elem_of_dom Hin].
    destruct (urls_body_assigns st0 st acc name r1 Hst Hr1)
      as (st1 & e & Hrun & Hst1 & Hat & Hoff).
    destruct (IH st1 (acc ++ [e]) Hst1 Hin) as (st' & out & Hloop & Hst' & Hobj).
    exists st', out. simpl. unfold bind at 1. rewrite Hrun.
    split; [exact Hloop|]. split; [exact Hst'|].
    intros r. specialize (Hobj r).
    destruct (decide (Exists (λ name, _registry (self st0) !! name = Some r)
                        names)) as [Hex|Hnex].
    + rewrite decide_True by (by right). exact Hobj.
    + destruct (decide (r = r1)) as [->|Hne].
      * rewrite decide_True by (by left). by rewrite Hobj.
      * rewrite decide_False; [by rewrite Hobj, Hoff|].
        intros [Hhd|Htl]%Exists_cons; [congruence | done].
Qed.

(** X6: [urls] assigns the [Api]'s [api_name] to every resource object held
    in the registry and to no other object; it changes nothing else of a
    resource object, and nothing of the [Api], the global state or the
    warnings. *)
Theorem urls_assigns_api_name st :
  self (urls st).2 = self st
  ∧ world (urls st).2 = world st
  ∧ warnings (urls st).2 = warnings st
  ∧ ∀ r,
      (routed (self st) r →
       objects (urls st).2 r = with_api_name (api_name (self st)) (objects st r))
      ∧ (¬ routed (self st) r → objects (urls st).2 r = objects st r).
Proof.
  destruct (urls_loop_assigns st (PyStr.sorted (keys (_registry (self st)))) st
              [top_level_entry st] (assigned_from_refl st))
    as (st' & out & Hloop & (Hself & Hw & Hwarn & _) & Hobj).
  { apply Forall_forall. intros name. by rewrite elem_of_sorted_keys. }
  assert ((urls st).2 = st') as ->.
  { unfold urls. unfold bind, get at 1. simpl.
    unfold top_level_entry in Hloop. by rewrite Hloop. }
  split; [done|]. split; [done|]. split; [done|].
  intros r. specialize (Hobj r).
  split.
  - intros [name Hname]. rewrite decide_True in Hobj; [done|].
    apply Exists_exists. exists name. split; [|done].
    apply elem_of_sorted_keys, elem_of_dom. eauto.
  - intros Hnr. rewrite decide_False in Hobj; [done|].
    intros (name & _ & Hname)%Exists_exists. apply Hnr. by exists name.
Qed.

Lemma included_under_assigned st st' names rest :
  assigned_from st st' →
  Forall2 (included_under st') names rest →
  Forall2 (included_under st) names rest.
Proof.
  intros (Hself & _ & _ & Hobj) Hall. eapply Forall2_impl; [exact Hall|].
  intros name e (r & Hr & ->). rewrite Hself in Hr. exists r. split; [done|].
  rewrite Hself. by destruct (Hobj r) as [-> | ->].
Qed.

(** X7: calling [urls] again returns the same patterns: the [api_name] it
    assigned the first time does not change what the second call builds. *)
Theorem urls_again_same_patterns st :
  (urls (urls st).2).1 = (urls st).1.
Proof.
  destruct (urls_runs st) as (st' & rest & Hrun & Hrest & Hst').
  rewrite Hrun. simpl.
  destruct (urls_runs st') as (st'' & rest' & -> & Hrest' & _). simpl.
  pose proof Hst' as (Hself & _).
  rewrite Hself in Hrest'.
  apply (included_under_assigned st st') in Hrest'; [|done].
  rewrite (included_under_agree st st _ eq_refl eq_refl (λ _, eq_refl)
             rest' rest Hrest' Hrest).
  unfold top_level_entry. by rewrite Hself.
Qed.

(** *** A fresh [Api] *)

Lemma sorted_keys_empty : PyStr.sorted (keys (∅ : gmap string ref)) = [].
Proof.
  apply Permutation_nil_r. rewrite sorted_keys_Permutation.
  by rewrite dom_empty_L, elements_empty.
Qed.

(** X8: on an [Api] just built, whatever its [api_name], [urls] returns the
    patterns of the discovery entry alone, [top_level] serializes the empty
    mapping, [canonical_resource_for] raises [NotRegistered] and
    [unregister] does nothing. *)
Theorem fresh_api_is_empty a objs w request api_name_arg name :
  let st := init a objs w in
  (urls st).1 = Return (patterns "" [top_level_entry st])
  ∧ (top_level request api_name_arg st).1 =
      Return {| content :=
                  serialize new_Serializer ∅
                    (determine_format request new_Serializer);
                content_type :=
                  build_content_type (determine_format request new_Serializer) |}
  ∧ (canonical_resource_for name st).1 = Raise (NotRegistered name)
  ∧ unregister name st = (Return tt, st).
Proof.
  intros st. split; [|split; [|split]].
  - unfold urls. unfold bind, get at 1. simpl. by rewrite sorted_keys_empty.
  - unfold top_level, bind, get, ret. simpl. by rewrite sorted_keys_empty.
  - by rewrite canonical_resource_for_eq.
  - apply unregister_absent; simpl; by rewrite dom_empty_L.
Qed.

(** *** The discovery view with an explicit [api_name] *)

(** X11: when [top_level] is given an [api_name], its response depends on
    the registry alone: not on the [Api]'s own [api_name], the canonicals,
    the resource objects or the order the keys are listed in. *)
Theorem top_level_explicit_api_name (O1 O2 : DictOrder) st1 st2 request a :
  _registry (self st1) = _registry (self st2) →
  (@top_level T F O1 request (Some a) st1).1
    = (@top_level T F O2 request (Some a) st2).1.
Proof.
  intros Hr. unfold top_level, bind, get, ret. simpl.
  rewrite (@sorted_Permutation (@keys O1 (_registry (self st1)))
             (@keys O2 (_registry (self st2)))); [done|].
  rewrite Hr. by rewrite (@keys_Permutation O1), (@keys_Permutation O2).
Qed.


(** *** Histories *)

Lemma step_keyed_by_name st o : keyed_by_name st → keyed_by_name (step st o).
Proof.
  intros Hinv name r Hlook.
  destruct (step_effect st o) as (_ & Hnames & Heff).
  assert (name_of (objects (step st o)) r = name_of (objects st) r) as ->.
  { unfold name_of. by rewrite Hnames. }
  destruct o as [resource canonical|name'|name'| |request arg];
    try (rewrite Heff in Hlook; by apply Hinv).
  - destruct (name_of (objects st) resource) as [name'|] eqn:En;
      [|rewrite Heff in Hlook; by apply Hinv].
    destruct Heff as [Hr Hc]. rewrite Hr, Hc in Hlook.
    destruct (decide (name' = name)) as [->|Hne].
    + destruct Hlook as [Hl|Hl].
      * rewrite lookup_insert_eq in Hl. congruence.
      * destruct canonical; [|by apply Hinv; right].
        rewrite lookup_insert_eq in Hl. congruence.
    + apply Hinv. destruct Hlook as [Hl|Hl].
      * left. by rewrite lookup_insert_ne in Hl.
      * right. destruct canonical; [by rewrite lookup_insert_ne in Hl | done].
  - destruct Heff as [Hr Hc]. rewrite Hr, Hc in Hlook. apply Hinv.
    destruct Hlook as [Hl|Hl]; [left | right];
      by apply lookup_delete_Some in Hl as [_ ?].
Qed.

(** X9: after any history of calls on a fresh [Api], every resource in the
    registry or in the canonicals sits under the key that is its own
    [resource_name]. *)
Theorem resources_keyed_by_name a objs w l :
  keyed_by_name (run_ops l (init a objs w)).
Proof.
  induction l as [|o l IH] using rev_ind.
  - intros name r [Hl|Hl]; simpl in Hl; by rewrite lookup_empty in Hl.
  - rewrite run_ops_snoc. by apply step_keyed_by_name.
Qed.

(** X10: after any history of calls on a fresh [Api], the registry holds
    under each name the resource most recently registered under it,
    canonical or not, unless the name was unregistered since; this is the
    resource [urls] routes and [top_level] lists. *)
Theorem registry_most_recent a objs w l name :
  _registry (self (run_ops l (init a objs w))) !! name =
    most_recent_registered objs (rev l) name.
Proof.
  induction l as [|o l IH] using rev_ind; [done|].
  rewrite run_ops_snoc, rev_unit.
  destruct (step_effect (run_ops l (init a objs w)) o) as (_ & _ & Heff).
  destruct o as [resource canonical|name'|name'| |request arg]; simpl;
    try (by rewrite Heff).
  - rewrite run_ops_name_of in Heff. simpl in Heff.
    destruct (name_of objs resource) as [name'|] eqn:En.
    + destruct Heff as [-> _].
      destruct (decide (name' = name)) as [->|Hne].
      * rewrite lookup_insert_eq. by rewrite decide_True.
      * rewrite lookup_insert_ne by done.
        rewrite decide_False by congruence. done.
    + rewrite Heff. by rewrite decide_False.
  - destruct Heff as [-> _]. destruct (decide (name' = name)) as [->|Hne].
    + apply lookup_delete_eq.
    + by rewrite lookup_delete_ne.
Qed.


(** X14: only [urls] writes to resource objects: [register], [unregister],
    [canonical_resource_for] and [top_level] leave every resource object as
    it was, whether they return or raise; in particular registering a
    resource does not yet assign its [api_name]. *)
Theorem only_urls_writes_objects st o :
  o ≠ Urls → objects (step st o) = objects st.
Proof.
  intros Hne. unfold step.
  destruct o as [resource canonical|name|name| |request arg]; simpl; [| | | done |].
  - pose proof (name_of_default (objects st) resource) as Hn.
    destruct (name_of (objects st) resource) as [name|].
    + by destruct (register_named_effects resource canonical st name Hn)
        as (st' & -> & _ & _ & _ & Ho & _).
    + by rewrite (register_unnamed resource canonical st Hn).
  - by destruct (unregister_returns name st) as (st' & -> & _ & _ & _ & Ho & _).
  - unfold bind. rewrite canonical_resource_for_eq.
    by destruct (_canonicals (self st) !! name).
  - done.
Qed.


End Further.


(** ** Runs on the demo host *)

Example sorted_notes_users :
  PyStr.sorted ["users"; "notes"; "note"; "Users"]
    = ["Users"; "note"; "notes"; "users"].
Proof. reflexivity. Qed.

Example urls_notes_users :
  (urls Demo.notes_users).1 =
    Return ["^(?P<api_name>v1)/$"; "^(?P<api_name>v1)/notes/";
            "^(?P<api_name>v1)/users/"].
Proof. vm_compute. reflexivity. Qed.

Example top_level_notes_users :
  (top_level "json" None Demo.notes_users).1 =
    Return {| content := "json:users=/api/v1/users/;notes=/api/v1/notes/;";
              content_type := "json; charset=utf-8" |}.
Proof. vm_compute. reflexivity. Qed.

Example noncanonical_keeps_canonical :
  (canonical_resource_for "notes"
     (run_ops [Register 3 false] Demo.notes_users)).1 = Return 1%positive
  ∧ _registry (self (run_ops [Register 3 false] Demo.notes_users)) !! "notes"
      = Some 3%positive.
Proof. split; vm_compute; reflexivity. Qed.

Lemma register_maps_name_witness :
  resource_name (objects Demo.notes_users 3) = Some (PyString "notes")
  ∧ ∃ st', register 3 false Demo.notes_users = (Return tt, st')
      ∧ _registry (self st') !! "notes" = Some 3%positive
      ∧ (∀ other, other ≠ "notes" →
           _registry (self st') !! other
             = _registry (self Demo.notes_users) !! other)
      ∧ ∀ l, NoDup (map_to_list (_registry (self (run_ops l st')))).*1.
Proof.
  split; [reflexivity|].
  apply (register_maps_name Demo.notes_users 3 false "notes"). reflexivity.
Defined.

Lemma register_raises_iff_witness :
  resource_name (objects Demo.v1 4) = Some PyNone
  ∧ (register 4 true Demo.v1).1 = Raise (ImproperlyConfigured 4).
Proof.
  split; [reflexivity|].
  apply (proj1 (register_raises_iff Demo.v1 4 true)). right. reflexivity.
Defined.

Lemma unregister_removes_witness :
  ("ghost" ∉ dom (_registry (self Demo.notes_users)))
  ∧ canonicals_registered (self Demo.notes_users)
  ∧ unregister "ghost" Demo.notes_users = (Return tt, Demo.notes_users).
Proof.
  assert ("ghost" ∉ dom (_registry (self Demo.notes_users))) as Hn.
  { apply not_elem_of_dom. vm_compute. reflexivity. }
  assert (canonicals_registered (self Demo.notes_users)) as Hinv.
  { unfold canonicals_registered.
    refine (bool_decide_unpack (_ ⊆ _) _). vm_compute. exact I. }
  split; [exact Hn|]. split; [exact Hinv|].
  destruct (unregister_removes Demo.notes_users "ghost")
    as (st' & Hrun & _ & _ & _ & _ & _ & Hsame).
  rewrite Hrun. f_equal. exact (Hsame Hn Hinv).
Defined.

Lemma outputs_determined_witness :
  api_name (self Demo.notes_users) = api_name (self Demo.users_notes)
  ∧ _registry (self Demo.notes_users) = _registry (self Demo.users_notes)
  ∧ _canonicals (self Demo.notes_users) = _canonicals (self Demo.users_notes)
  ∧ (∀ r, objects Demo.notes_users r = objects Demo.users_notes r)
  ∧ (@urls _ _ Demo.listed Demo.notes_users).1
      = (@urls _ _ Demo.listed_backwards Demo.users_notes).1
  ∧ (@top_level _ _ Demo.listed "json" None Demo.notes_users).1
      = (@top_level _ _ Demo.listed_backwards "json" None Demo.users_notes).1.
Proof.
  assert (api_name (self Demo.notes_users) = api_name (self Demo.users_notes))
    as Ha by reflexivity.
  assert (_registry (self Demo.notes_users) = _registry (self Demo.users_notes))
    as Hr by (vm_compute; reflexivity).
  assert (_canonicals (self Demo.notes_users)
            = _canonicals (self Demo.users_notes))
    as Hc by (vm_compute; reflexivity).
  assert (∀ r, objects Demo.notes_users r = objects Demo.users_notes r)
    as Ho by (intros r; reflexivity).
  split; [exact Ha|]. split; [exact Hr|]. split; [exact Hc|].
  split; [exact Ho|].
  exact (outputs_determined Demo.listed Demo.listed_backwards
           Demo.notes_users Demo.users_notes "json" None Ha Hr Hc Ho).
Defined.

(** C6 as stated fails: two [Api]s with equal registry and canonicals, asked
    for [urls], or for [top_level] on the same request with no [api_name]
    argument, answer differently when their own [api_name]s differ. *)
Lemma api_name_changes_output :
  _registry (self (Demo.notes_on "v1")) = _registry (self (Demo.notes_on "v2"))
  ∧ _canonicals (self (Demo.notes_on "v1"))
      = _canonicals (self (Demo.notes_on "v2"))
  ∧ (urls (Demo.notes_on "v1")).1 ≠ (urls (Demo.notes_on "v2")).1
  ∧ (top_level "json" None (Demo.notes_on "v1")).1
      ≠ (top_level "json" None (Demo.notes_on "v2")).1.
Proof.
  split; [vm_compute; reflexivity|]. split; [vm_compute; reflexivity|].
  split; vm_compute; intros E; discriminate E.
Qed.

Lemma register_warns_on_replacing_witness :
  resource_name (objects Demo.notes_users 3) = Some (PyString "notes")
  ∧ warnings (register 3 true Demo.notes_users).2 = [(3%positive, "notes")].
Proof.
  split; [reflexivity|].
  rewrite (register_warns_on_replacing Demo.notes_users 3 true "notes");
    [|reflexivity].
  vm_compute. reflexivity.
Defined.

Lemma register_then_canonical_resource_for_witness :
  resource_name (objects Demo.notes_users 3) = Some (PyString "notes")
  ∧ (canonical_resource_for "notes" (register 3 true Demo.notes_users).2).1
      = Return 3%positive.
Proof.
  split; [reflexivity|].
  apply (register_then_canonical_resource_for Demo.notes_users 3 "notes").
  reflexivity.
Defined.

Lemma register_noncanonical_keeps_canonical_witness :
  resource_name (objects Demo.notes_users 3) = Some (PyString "notes")
  ∧ _registry (self (register 3 false Demo.notes_users).2) !! "notes"
      = Some 3%positive
  ∧ ∀ other,
      (canonical_resource_for other (register 3 false Demo.notes_users).2).1
        = (canonical_resource_for other Demo.notes_users).1.
Proof.
  split; [reflexivity|].
  apply (register_noncanonical_keeps_canonical Demo.notes_users 3 "notes").
  reflexivity.
Defined.

Lemma register_unregister_round_trip_witness :
  resource_name (objects Demo.v1 1) = Some (PyString "notes")
  ∧ ("notes" ∉ dom (_registry (self Demo.v1)))
  ∧ ("notes" ∉ dom (_canonicals (self Demo.v1)))
  ∧ self (unregister "notes" (register 1 true Demo.v1).2).2 = self Demo.v1
  ∧ objects (unregister "notes" (register 1 true Demo.v1).2).2
      = objects Demo.v1.
Proof.
  assert ("notes" ∉ dom (_registry (self Demo.v1))) as Hr.
  { apply not_elem_of_dom. reflexivity. }
  assert ("notes" ∉ dom (_canonicals (self Demo.v1))) as Hc.
  { apply not_elem_of_dom. reflexivity. }
  split; [reflexivity|]. split; [exact Hr|]. split; [exact Hc|].
  exact (register_unregister_round_trip Demo.v1 1 true "notes" eq_refl Hr Hc).
Defined.

Lemma top_level_explicit_api_name_witness :
  _registry (self (Demo.notes_on "v1")) = _registry (self (Demo.notes_on "v2"))
  ∧ (@top_level _ _ Demo.listed "json" (Some "v3") (Demo.notes_on "v1")).1
      = (@top_level _ _ Demo.listed_backwards "json" (Some "v3")
           (Demo.notes_on "v2")).1.
Proof.
  assert (_registry (self (Demo.notes_on "v1"))
            = _registry (self (Demo.notes_on "v2")))
    as Hr by (vm_compute; reflexivity).
  split; [exact Hr|].
  exact (top_level_explicit_api_name Demo.listed Demo.listed_backwards
           (Demo.notes_on "v1") (Demo.notes_on "v2") "json" "v3" Hr).
Defined.

Lemma only_urls_writes_objects_witness :
  Register 1 true ≠ Urls
  ∧ objects (step Demo.v1 (Register 1 true)) = objects Demo.v1.
Proof.
  assert (@Register Demo.types 1 true ≠ Urls) as Hne by discriminate.
  split; [exact Hne|].
  exact (only_urls_writes_objects Demo.v1 (Register 1 true) Hne).
Defined.
